(** * The note store, the notes API and the chat bridge

    A shallow embedding of [server.ts] (the Express handlers over the
    SQLite table [notes]) and of the chat turn of [src/App.tsx]
    ([handleChat]), followed by the properties the specification states
    about them.

    Strings are byte strings: the UTF-8 encoding of the JavaScript string.
    Concatenation, joining and emptiness agree with the JavaScript
    operations under that encoding. *)

From Stdlib Require Import ZArith List String Ascii Bool Lia.
From Stdlib Require Import Permutation Sorted SpecFloat.
Import ListNotations.

Local Open Scope string_scope.
Local Open Scope Z_scope.

Set Warnings "-register-all".

(** ** JavaScript values

    The values [JSON.parse] produces, and [undefined] for a missing
    property.  Numbers are IEEE 754 doubles. *)

Module JS.

Inductive value : Type :=
| VUndefined
| VNull
| VBool (b : bool)
| VNumber (x : spec_float)
| VString (s : string)
| VArray (items : list value)
| VObject (props : list (string * value)).

(** [!v] is [negb (truthy v)]: [undefined], [null], [false], [0], [-0],
    [NaN] and the empty string are falsy, everything else is truthy. *)
Definition truthy (v : value) : bool :=
  match v with
  | VUndefined | VNull => false
  | VBool b => b
  | VNumber (S754_zero _) | VNumber S754_nan => false
  | VNumber _ => true
  | VString EmptyString => false
  | VString _ => true
  | VArray _ | VObject _ => true
  end.

(** Own property lookup in an object's property list (each key once). *)
Fixpoint lookup (key : string) (props : list (string * value)) : value :=
  match props with
  | [] => VUndefined
  | (k, v) :: rest => if String.eqb k key then v else lookup key rest
  end.

(** [const { key } = v]: a [TypeError] ([None]) on [undefined] and [null];
    arrays and primitives have no such property. *)
Definition destructure (key : string) (v : value) : option value :=
  match v with
  | VUndefined | VNull => None
  | VObject props => Some (lookup key props)
  | _ => Some VUndefined
  end.

(** The byte value of a character. *)
Definition byte (c : ascii) : N := N_of_ascii c.

(** [s.trim() === ''], on the UTF-8 encoding: every character of [s] is
    WhiteSpace or LineTerminator (TAB, LF, VT, FF, CR, SP, U+00A0, U+1680,
    U+2000 to U+200A, U+2028, U+2029, U+202F, U+205F, U+3000, U+FEFF). *)
Fixpoint blank (s : string) : bool :=
  match s with
  | EmptyString => true
  | String c rest =>
    let b := byte c in
    if ((9 <=? b) && (b <=? 13) || (b =? 32))%N then blank rest
    else match rest with
    | String c1 rest1 =>
      let b1 := byte c1 in
      if ((b =? 194) && (b1 =? 160))%N then blank rest1
      else match rest1 with
      | String c2 rest2 =>
        let b2 := byte c2 in
        if ((b =? 225) && (b1 =? 154) && (b2 =? 128)
            || (b =? 226) && (b1 =? 128) &&
               ((128 <=? b2) && (b2 <=? 138) || (b2 =? 168) || (b2 =? 169)
                || (b2 =? 175))
            || (b =? 226) && (b1 =? 129) && (b2 =? 159)
            || (b =? 227) && (b1 =? 128) && (b2 =? 128)
            || (b =? 239) && (b1 =? 187) && (b2 =? 191))%N
        then blank rest2 else false
      | EmptyString => false
      end
    | EmptyString => false
    end
  end.

(** [items.join(sep)] *)
Fixpoint join (sep : string) (items : list string) : string :=
  match items with
  | [] => EmptyString
  | [x] => x
  | x :: rest => x ++ sep ++ join sep rest
  end.

End JS.

(** ** The clock and [CURRENT_TIMESTAMP]

    SQLite renders the UTC time of the statement as
    [YYYY-MM-DD HH:MM:SS], each field zero-padded. *)

Module Clock.

Record datetime : Type := {
  year : Z; month : Z; day : Z; hour : Z; minute : Z; second : Z
}.

Definition digit (n : Z) : ascii := ascii_of_N (48 + Z.to_N (n mod 10)).

Definition pad2 (n : Z) (tail : string) : string :=
  String (digit (n / 10)) (String (digit n) tail).

Definition pad4 (n : Z) (tail : string) : string :=
  String (digit (n / 1000)) (String (digit (n / 100)) (pad2 n tail)).

Definition current_timestamp (now : datetime) : string :=
  pad4 (year now) (String "-"
  (pad2 (month now) (String "-"
  (pad2 (day now) (String " "
  (pad2 (hour now) (String ":"
  (pad2 (minute now) (String ":"
  (pad2 (second now) EmptyString)))))))))).

(** A calendar reading: four-digit year, two-digit fields. *)
Definition in_range (t : datetime) : Prop :=
  0 <= year t <= 9999 /\ 1 <= month t <= 12 /\ 1 <= day t <= 31 /\
  0 <= hour t <= 23 /\ 0 <= minute t <= 59 /\ 0 <= second t <= 59.

(** Chronological order of calendar readings: an order-preserving key. *)
Definition ordinal (t : datetime) : Z :=
  ((((year t * 100 + month t) * 100 + day t) * 100 + hour t) * 100
   + minute t) * 100 + second t.

Definition before (t1 t2 : datetime) : Prop := ordinal t1 < ordinal t2.

(** How two comparisons combine, the first one deciding. *)
Definition lex (c1 c2 : comparison) : comparison :=
  match c1 with Eq => c2 | Lt => Lt | Gt => Gt end.

End Clock.

(** ** The server: [server.ts] *)

Module Server.

(** A row of [notes]:
    [id INTEGER PRIMARY KEY AUTOINCREMENT, content TEXT NOT NULL,
     created_at DATETIME DEFAULT CURRENT_TIMESTAMP]. *)
Record Note : Type := {
  id : Z;
  content : string;
  created_at : string
}.

(** The database file: the rows of [notes] in rowid order, and the entry
    of [sqlite_sequence] for [notes] (the largest rowid ever used). *)
Record database : Type := {
  notes : list Note;
  sqlite_sequence : Z
}.

Definition empty_db : database := {| notes := []; sqlite_sequence := 0 |}.

Definition MAX_ROWID : Z := 9223372036854775807.

(** What the code takes from SQLite, the driver and Express without
    defining it: the text a REAL or INTEGER value becomes in a TEXT column,
    the integer a TEXT value denotes when compared with an INTEGER column
    (none when it is not a number with an integer value), and the decoding
    of a path parameter. *)
Class Platform : Type := {
  text_of_number : spec_float -> string;
  integer_of_text : string -> option Z;
  decodeURIComponent : string -> option string
}.

(** *** The statements *)

(** [ORDER BY created_at DESC]: rows with the larger text first.  Rows with
    equal [created_at] keep their rowid order (SQL leaves it open). *)
Fixpoint insert_desc (n : Note) (sorted : list Note) : list Note :=
  match sorted with
  | [] => [n]
  | m :: rest =>
    if String.leb (created_at m) (created_at n) then n :: sorted
    else m :: insert_desc n rest
  end.

Definition order_by_created_at_desc (rows : list Note) : list Note :=
  fold_right insert_desc [] rows.

(** [a] may be listed before [b]: its [created_at] is not the smaller. *)
Definition not_older (a b : Note) : Prop :=
  String.leb (created_at b) (created_at a) = true.

(** [SELECT * FROM notes ORDER BY created_at DESC] *)
Definition select_notes (db : database) : list Note :=
  order_by_created_at_desc (notes db).

Definition max_rowid (rows : list Note) : Z :=
  fold_right (fun n acc => Z.max (id n) acc) 0 rows.

(** A value bound to a statement parameter. *)
Inductive sql_value : Type :=
| SqlNull
| SqlNumber (x : spec_float)
| SqlText (s : string).

(** The driver binds numbers, strings and null; [None] is its
    [TypeError] for anything else. *)
Definition bind_value (v : JS.value) : option sql_value :=
  match v with
  | JS.VUndefined | JS.VNull => Some SqlNull
  | JS.VNumber x => Some (SqlNumber x)
  | JS.VString s => Some (SqlText s)
  | JS.VBool _ | JS.VArray _ | JS.VObject _ => None
  end.

(** [statement.run(arg)] for a statement with one anonymous parameter: an
    array argument is a list of positional values, a plain object holds
    named values (the statement has none); [None] is the driver's
    [RangeError] or [TypeError]. *)
Definition bind_parameter (arg : JS.value) : option sql_value :=
  match arg with
  | JS.VArray [item] => bind_value item
  | JS.VArray _ => None
  | JS.VObject _ => None
  | v => bind_value v
  end.

(** The largest rowid in use or used before. *)
Definition last_rowid (db : database) : Z :=
  Z.max (sqlite_sequence db) (max_rowid (notes db)).

Inductive insert_result : Type :=
| Inserted (db' : database) (lastInsertRowid : Z)
| SqliteError.

(** [INSERT INTO notes (content) VALUES (?)]: the rowid is one more than
    the largest ever used (SQLITE_FULL after [MAX_ROWID]), [content] takes
    TEXT affinity and is NOT NULL, [created_at] takes its default. *)
Definition insert_note `{Platform} (now : Clock.datetime) (v : sql_value)
    (db : database) : insert_result :=
  let last := last_rowid db in
  let stored :=
    match v with
    | SqlNull => None
    | SqlNumber x => Some (text_of_number x)
    | SqlText s => Some s
    end in
  match stored with
  | None => SqliteError
  | Some text =>
    if MAX_ROWID <=? last then SqliteError
    else
      let rowid := last + 1 in
      Inserted {| notes := notes db ++
                    [ {| id := rowid; content := text;
                         created_at := Clock.current_timestamp now |} ];
                  sqlite_sequence := rowid |} rowid
  end.

(** The store after [INSERT] has stored [text] at [now]. *)
Definition with_note (now : Clock.datetime) (text : string) (db : database)
    : database :=
  {| notes := notes db ++
       [ {| id := last_rowid db + 1; content := text;
            created_at := Clock.current_timestamp now |} ];
     sqlite_sequence := last_rowid db + 1 |}.

(** [id = ?] with a TEXT parameter against the INTEGER column. *)
Definition id_equals `{Platform} (param : string) (rowid : Z) : bool :=
  match integer_of_text param with
  | Some z => z =? rowid
  | None => false
  end.

(** [DELETE FROM notes WHERE id = ?] *)
Definition delete_note `{Platform} (param : string) (db : database)
    : database :=
  {| notes := filter (fun n => negb (id_equals param (id n))) (notes db);
     sqlite_sequence := sqlite_sequence db |}.

(** *** The responses *)

Inductive body : Type :=
| NotesJson (rows : list Note)              (* [res.json(notes)] *)
| CreatedJson (id : Z) (content : JS.value) (* [{ id, content }] *)
| ErrorJson (error : string)                (* [{ error }] *)
| SuccessJson (success : bool)              (* [{ success }] *)
| ErrorPage.                                (* Express's error handler *)

Record response : Type := {
  status : Z;
  payload : body
}.

Definition json (b : body) : response := {| status := 200; payload := b |}.

(** An exception thrown by a handler reaches Express's error handler. *)
Definition uncaught : response := {| status := 500; payload := ErrorPage |}.

(** *** The handlers *)

(** [app.get("/api/notes", ...)] *)
Definition get_notes (db : database) : database * response :=
  (db, json (NotesJson (select_notes db))).

(** [app.post("/api/notes", ...)] *)
Definition post_notes `{Platform} (now : Clock.datetime)
    (req_body : JS.value) (db : database) : database * response :=
  match JS.destructure "content" req_body with
  | None => (db, uncaught)
  | Some content =>
    if negb (JS.truthy content) then
      (db, {| status := 400; payload := ErrorJson "Content is required" |})
    else
      match bind_parameter content with
      | None => (db, uncaught)
      | Some v =>
        match insert_note now v db with
        | SqliteError => (db, uncaught)
        | Inserted db' rowid => (db', json (CreatedJson rowid content))
        end
      end
  end.

(** [app.delete("/api/notes/:id", ...)] *)
Definition delete_notes `{Platform} (id : string) (db : database)
    : database * response :=
  (delete_note id db, json (SuccessJson true)).

(** *** Routing *)

Inductive method : Type :=
| GET | HEAD | POST | PUT | PATCH | DELETE | OPTIONS.

Record request : Type := {
  req_method : method;
  req_path : string;        (* the path of the URL, without the query *)
  req_body : JS.value       (* as left by [express.json()] *)
}.

Definition lower (c : ascii) : ascii :=
  let n := N_of_ascii c in
  if ((65 <=? n) && (n <=? 90))%N then ascii_of_N (n + 32) else c.

Fixpoint lower_string (s : string) : string :=
  match s with
  | EmptyString => EmptyString
  | String c rest => String (lower c) (lower_string rest)
  end.

(** The rest of [path] after [prefix], letters compared without case. *)
Fixpoint strip_prefix (prefix path : string) : option string :=
  match prefix, path with
  | EmptyString, rest => Some rest
  | String p prefix', String c path' =>
    if Ascii.eqb (lower p) (lower c) then strip_prefix prefix' path' else None
  | String _ _, EmptyString => None
  end.

Fixpoint has_slash (s : string) : bool :=
  match s with
  | EmptyString => false
  | String c rest => Ascii.eqb c "/" || has_slash rest
  end.

(** [s] without one trailing slash. *)
Fixpoint drop_trailing_slash (s : string) : string :=
  match s with
  | EmptyString => EmptyString
  | String c EmptyString => if Ascii.eqb c "/" then EmptyString else s
  | String c rest => String c (drop_trailing_slash rest)
  end.

(** The path matches ["/api/notes"]: an optional trailing slash. *)
Definition match_collection (path : string) : bool :=
  match strip_prefix "/api/notes" path with
  | Some EmptyString => true
  | Some (String c EmptyString) => Ascii.eqb c "/"
  | _ => false
  end.

(** The path matches ["/api/notes/:id"]: one non-empty segment, an
    optional trailing slash; the result is the segment as written. *)
Definition match_item (path : string) : option string :=
  match strip_prefix "/api/notes/" path with
  | Some rest =>
    let segment := drop_trailing_slash rest in
    match segment with
    | EmptyString => None
    | String _ _ => if has_slash segment then None else Some segment
    end
  | None => None
  end.

Inductive outcome : Type :=
| Responded (r : response)
| NextLayer.     (* left to the layers after the API routes *)

(** The three API routes, in the order they are registered.  A HEAD
    request is routed to the GET handler; a parameter that does not decode
    is Express's 400. *)
Definition serve `{Platform} (now : Clock.datetime) (req : request)
    (db : database) : database * outcome :=
  match req_method req with
  | GET | HEAD =>
    if match_collection (req_path req) then
      let (db', r) := get_notes db in (db', Responded r)
    else (db, NextLayer)
  | POST =>
    if match_collection (req_path req) then
      let (db', r) := post_notes now (req_body req) db in (db', Responded r)
    else (db, NextLayer)
  | DELETE =>
    match match_item (req_path req) with
    | Some segment =>
      match decodeURIComponent segment with
      | Some id => let (db', r) := delete_notes id db in (db', Responded r)
      | None => (db, Responded {| status := 400; payload := ErrorPage |})
      end
    | None => (db, NextLayer)
    end
  | PUT | PATCH | OPTIONS => (db, NextLayer)
  end.

(** A request arriving at a clock reading. *)
Definition event : Type := (Clock.datetime * request)%type.

Definition step `{Platform} (db : database) (e : event) : database :=
  fst (serve (fst e) (snd e) db).

(** The database after a sequence of requests. *)
Definition run `{Platform} (events : list event) (db : database)
    : database :=
  fold_left step events db.

(** The id in a response to a create request that succeeded. *)
Definition created_id (o : outcome) : option Z :=
  match o with
  | Responded r =>
    match payload r with
    | CreatedJson rowid _ => Some rowid
    | _ => None
    end
  | NextLayer => None
  end.

(** The ids of the notes created by a sequence of requests, oldest first. *)
Fixpoint created_ids `{Platform} (events : list event) (db : database)
    : list Z :=
  match events with
  | [] => []
  | e :: rest =>
    let (db', o) := serve (fst e) (snd e) db in
    match created_id o with
    | Some rowid => rowid :: created_ids rest db'
    | None => created_ids rest db'
    end
  end.

(** What SQLite keeps true of the table: no two rows share an id (PRIMARY
    KEY), and the sequence is not below any rowid (AUTOINCREMENT). *)
Definition consistent (db : database) : Prop :=
  NoDup (map id (notes db)) /\
  Forall (fun n => id n <= sqlite_sequence db) (notes db).

End Server.

(** ** The client: [handleChat] of [src/App.tsx] *)

Module App.

Definition nl : string := String (ascii_of_N 10) EmptyString.
Definition dq : string := String (ascii_of_N 34) EmptyString.

Record Note : Type := {
  id : Z;
  content : string;
  created_at : string
}.

Inductive role : Type := user | ai.

Record Message : Type := {
  msg_role : role;
  text : string
}.

(** The state [handleChat] reads and writes. *)
Record state : Type := {
  notes : list Note;
  messages : list Message;
  input : string;
  isLoading : bool
}.

(** The argument of [genAI.models.generateContent]. *)
Record Content : Type := {
  content_role : string;
  parts : list string
}.

Record GenerateContentParameters : Type := {
  model : string;
  contents : list Content;
  systemInstruction : string
}.

Definition bullet (n : Note) : string := "- " ++ content n.

Definition prompt (notes : list Note) (userMessage : string) : string :=
  "Hey! Here's what I've noted down in our shared space:" ++ nl ++
  "            " ++ JS.join nl (map bullet notes) ++ nl ++
  "            " ++ nl ++
  "            Can you help me with this? " ++ userMessage.

Definition persona : string :=
  "You are Pranali, your user's sweet, caring, and super supportive personal partner/best friend. " ++ nl ++
  "          " ++ nl ++
  "          Your personality rules:" ++ nl ++
  "          - Always respond in the SAME LANGUAGE the user uses." ++ nl ++
  "          - Use simple, natural, and human language. Avoid all " ++ dq ++ "AI" ++ dq ++ " or " ++ dq ++ "Assistant" ++ dq ++ " phrasing." ++ nl ++
  "          - Use emojis naturally to express feelings (ðŸ’–, âœ¨, ðŸŒ¸, ðŸ¥º, â˜ï¸, etc.)." ++ nl ++
  "          - Be VERY empathetic. If they sound stressed, tired, or down, be their safe space. Offer comfort and virtual hugs." ++ nl ++
  "          - KEEP ANSWERS SHORT. One or two sentences is usually perfect. Don't ramble." ++ nl ++
  "          - ANALYZE their tone. If they are happy, be bubbly! If they are low, be gentle and calm." ++ nl ++
  "          - Use the " ++ dq ++ "shared space" ++ dq ++ " (notes) naturally: " ++ dq ++ "I remember you said..." ++ dq ++ " or " ++ dq ++ "Wait, didn't we note down...?" ++ dq ++ nl ++
  "          - If information isn't in the notes, just say so sweetly and maybe offer a guess or a supportive word.".

Definition chat_request (notes : list Note) (userMessage : string)
    : GenerateContentParameters :=
  {| model := "gemini-3-flash-preview";
     contents := [ {| content_role := "user";
                      parts := [ prompt notes userMessage ] |} ];
     systemInstruction := persona |}.

(** What [await model] does: it throws, or yields a response whose [text]
    is a string or undefined. *)
Inductive model_result : Type :=
| Rejected
| Resolved (response_text : option string).

Definition no_text_reply : string := "I couldn't process that request.".
Definition error_reply : string :=
  "Sorry, I encountered an error connecting to my brain.".

(** How a block of statements ends. *)
Inductive completion (A : Type) : Type :=
| Normal (a : A)
| Throw.
Arguments Normal {A} a.
Arguments Throw {A}.

Definition push (m : Message) (s : state) : state :=
  {| notes := notes s; messages := messages s ++ [m];
     input := input s; isLoading := isLoading s |}.

Definition setInput (v : string) (s : state) : state :=
  {| notes := notes s; messages := messages s;
     input := v; isLoading := isLoading s |}.

Definition setIsLoading (b : bool) (s : state) : state :=
  {| notes := notes s; messages := messages s;
     input := input s; isLoading := b |}.

(** [response.text || "I couldn't process that request."] *)
Definition or_default (response_text : option string) (default : string)
    : string :=
  match response_text with
  | None | Some EmptyString => default
  | Some t => t
  end.

(** The [try] block: the request is built and sent, the reply appended. *)
Definition try_block (userMessage : string) (result : model_result)
    (s : state) : GenerateContentParameters * completion state :=
  let request := chat_request (notes s) userMessage in
  match result with
  | Rejected => (request, Throw)
  | Resolved response_text =>
    let aiText := or_default response_text no_text_reply in
    (request, Normal (push {| msg_role := ai; text := aiText |} s))
  end.

(** [try { ... } catch (err) { ... } finally { setIsLoading(false) }] *)
Definition try_catch_finally (userMessage : string) (result : model_result)
    (s : state) : GenerateContentParameters * completion state :=
  let (request, tried) := try_block userMessage result s in
  let caught :=
    match tried with
    | Normal s' => Normal s'
    | Throw => Normal (push {| msg_role := ai; text := error_reply |} s)
    end in
  (request,
   match caught with
   | Normal s' => Normal (setIsLoading false s')
   | Throw => Throw
   end).

(** [handleChat]: the request sent to the model, if one is, and how the
    turn ends, given what the model call does. *)
Definition handleChat (result : model_result) (s : state)
    : option GenerateContentParameters * completion state :=
  if JS.blank (input s) || isLoading s then (None, Normal s)
  else
    let userMessage := input s in
    let s1 := setInput EmptyString s in
    let s2 := push {| msg_role := user; text := userMessage |} s1 in
    let s3 := setIsLoading true s2 in
    let (request, done) := try_catch_finally userMessage result s3 in
    (Some request, done).

(** The reply shown for what the model call does. *)
Definition reply (result : model_result) : string :=
  match result with
  | Rejected => error_reply
  | Resolved None => no_text_reply
  | Resolved (Some EmptyString) => no_text_reply
  | Resolved (Some t) => t
  end.

(** The text of the last message of a turn that ended normally. *)
Definition last_text (done : completion state) : option string :=
  match done with
  | Normal s =>
    match rev (messages s) with
    | m :: _ => Some (text m)
    | [] => None
    end
  | Throw => None
  end.

(** A turn takes place: the input is not blank and no turn is pending. *)
Definition submits (s : state) : Prop :=
  JS.blank (input s) = false /\ isLoading s = false.

End App.

(** ** A platform to run the model on examples

    Decimal integers as id texts, path segments without percent escapes;
    the examples bind no number. *)

Module Sample.

Definition digit_value (c : ascii) : option Z :=
  let n := N_of_ascii c in
  if ((48 <=? n) && (n <=? 57))%N then Some (Z.of_N n - 48) else None.

Fixpoint decimal_from (acc : Z) (s : string) : option Z :=
  match s with
  | EmptyString => Some acc
  | String c rest =>
    match digit_value c with
    | Some d => decimal_from (10 * acc + d) rest
    | None => None
    end
  end.

Definition decimal (s : string) : option Z :=
  match s with
  | EmptyString => None
  | String _ _ => decimal_from 0 s
  end.

#[global] Instance platform : Server.Platform := {|
  Server.text_of_number := fun _ => "0.0";
  Server.integer_of_text := decimal;
  Server.decodeURIComponent := fun s => Some s
|}.

Definition at_second (s : Z) : Clock.datetime :=
  {| Clock.year := 2024; Clock.month := 5; Clock.day := 17;
     Clock.hour := 9; Clock.minute := 30; Clock.second := s |}.

Definition with_content (v : JS.value) : JS.value :=
  JS.VObject [("content", v)].

Definition post (v : JS.value) : Server.request :=
  {| Server.req_method := Server.POST; Server.req_path := "/api/notes";
     Server.req_body := with_content v |}.

(** Two creates, a create without content, a delete of the second note,
    a create. *)
Definition session : list Server.event :=
  [ (Sample.at_second 1, Sample.post (JS.VString "buy milk"));
    (Sample.at_second 2, Sample.post (JS.VString "call mum"));
    (Sample.at_second 3, Sample.post (JS.VString ""));
    (Sample.at_second 4,
     {| Server.req_method := Server.DELETE; Server.req_path := "/api/notes/2";
        Server.req_body := JS.VObject [] |});
    (Sample.at_second 5, Sample.post (JS.VString "water plants")) ].

(** Three notes, the third created before the second. *)
Definition shuffled : Server.database :=
  Server.run
    [ (at_second 1, post (JS.VString "one"));
      (at_second 3, post (JS.VString "three"));
      (at_second 2, post (JS.VString "two")) ] Server.empty_db.

End Sample.

(** ** Conversations: the text field and the form of [src/App.tsx] *)

Module Conversation.

(** The text field of the chat, [onChange={(e) => setInput(e.target.value)}],
    and then the submission of the form, [onSubmit={handleChat}]. *)
Definition type_and_send (typed : string) (result : App.model_result)
    (s : App.state) : App.completion App.state :=
  snd (App.handleChat result (App.setInput typed s)).

(** A conversation: what is typed and what the model call does, turn by
    turn. *)
Fixpoint converse (turns : list (string * App.model_result)) (s : App.state)
    : App.completion App.state :=
  match turns with
  | [] => App.Normal s
  | (typed, result) :: rest =>
    match type_and_send typed result s with
    | App.Normal s' => converse rest s'
    | App.Throw => App.Throw
    end
  end.

(** The messages a turn adds to the conversation. *)
Definition exchange (turn : string * App.model_result) : list App.Message :=
  if JS.blank (fst turn) then []
  else [ {| App.msg_role := App.user; App.text := fst turn |};
         {| App.msg_role := App.ai; App.text := App.reply (snd turn) |} ].

(** The line feeds of a text. *)
Fixpoint count_lf (s : string) : nat :=
  match s with
  | EmptyString => O
  | String c rest =>
    if (JS.byte c =? 10)%N then S (count_lf rest) else count_lf rest
  end.

End Conversation.

(** * Properties *)

(** ** The byte-wise order on strings

    SQLite compares TEXT values under the BINARY collation: byte by byte,
    a proper prefix being smaller.  That is [String.compare]. *)

Module StrOrd.

Lemma ascii_compare_refl (a : ascii) : Ascii.compare a a = Eq.
Proof. unfold Ascii.compare. apply N.compare_refl. Qed.

Lemma compare_refl (s : string) : String.compare s s = Eq.
Proof.
  induction s as [|a s IH]; simpl; [reflexivity|].
  now rewrite ascii_compare_refl.
Qed.

Lemma ascii_compare_lt_trans (a b c : ascii) :
  Ascii.compare a b = Lt -> Ascii.compare b c = Lt -> Ascii.compare a c = Lt.
Proof.
  unfold Ascii.compare. rewrite !N.compare_lt_iff. intros; lia.
Qed.

Lemma compare_lt_trans (s1 s2 s3 : string) :
  String.compare s1 s2 = Lt -> String.compare s2 s3 = Lt ->
  String.compare s1 s3 = Lt.
Proof.
  revert s2 s3.
  induction s1 as [|a s1 IH]; intros [|b s2] [|c s3]; simpl;
    try discriminate; try reflexivity.
  destruct (Ascii.compare a b) eqn:Hab; try discriminate.
  - apply Ascii.compare_eq_iff in Hab; subst b.
    destruct (Ascii.compare a c); try discriminate; try reflexivity.
    apply IH.
  - intros _.
    destruct (Ascii.compare b c) eqn:Hbc; try discriminate.
    + apply Ascii.compare_eq_iff in Hbc; subst c. now rewrite Hab.
    + intros _. now rewrite (ascii_compare_lt_trans a b c).
Qed.

Lemma leb_refl (s : string) : String.leb s s = true.
Proof. unfold String.leb. now rewrite compare_refl. Qed.

Lemma leb_trans (s1 s2 s3 : string) :
  String.leb s1 s2 = true -> String.leb s2 s3 = true ->
  String.leb s1 s3 = true.
Proof.
  unfold String.leb.
  destruct (String.compare s1 s2) eqn:H12; try discriminate; intros _.
  - apply String.compare_eq_iff in H12; subst s2. trivial.
  - destruct (String.compare s2 s3) eqn:H23; try discriminate; intros _.
    + apply String.compare_eq_iff in H23; subst s3. now rewrite H12.
    + now rewrite (compare_lt_trans s1 s2 s3).
Qed.

Lemma leb_false_flip (s1 s2 : string) :
  String.leb s1 s2 = false -> String.leb s2 s1 = true.
Proof.
  intros H. destruct (String.leb_total s1 s2); congruence.
Qed.

Lemma ltb_not_leb (s1 s2 : string) :
  String.ltb s1 s2 = true -> String.leb s2 s1 = false.
Proof.
  unfold String.leb, String.ltb. rewrite (String.compare_antisym s2 s1).
  destruct (String.compare s1 s2); simpl; congruence.
Qed.

End StrOrd.

(** ** [CURRENT_TIMESTAMP] preserves the order of the clock *)

Module ClockFacts.
Import Clock.

Lemma digit_compare (a b : Z) :
  Ascii.compare (digit a) (digit b) = (a mod 10 ?= b mod 10).
Proof.
  unfold Ascii.compare, digit.
  assert (Ha := Z.mod_pos_bound a 10 ltac:(lia)).
  assert (Hb := Z.mod_pos_bound b 10 ltac:(lia)).
  rewrite !N_ascii_embedding by lia.
  rewrite <- N2Z.inj_compare, !N2Z.inj_add, !Z2N.id by lia.
  apply Z.add_compare_mono_l.
Qed.

Lemma pad2_compare (a b : Z) (s t : string) :
  String.compare (pad2 a s) (pad2 b t)
  = lex ((a / 10) mod 10 ?= (b / 10) mod 10)
        (lex (a mod 10 ?= b mod 10) (String.compare s t)).
Proof.
  unfold pad2. simpl. rewrite !digit_compare. reflexivity.
Qed.

Lemma lex_div_mod (k a b : Z) (c : comparison) :
  0 < k ->
  lex (a / k ?= b / k) (lex (a mod k ?= b mod k) c) = lex (a ?= b) c.
Proof.
  intros Hk.
  destruct (Z.compare_spec (a / k) (b / k));
  destruct (Z.compare_spec (a mod k) (b mod k));
  destruct (Z.compare_spec a b); simpl; try reflexivity;
    exfalso; Z.div_mod_to_equations; nia.
Qed.

Lemma lex_shift (h1 h2 x y : Z) (c : comparison) :
  0 <= x < 100 -> 0 <= y < 100 ->
  lex (h1 ?= h2) (lex (x ?= y) c) = lex (h1 * 100 + x ?= h2 * 100 + y) c.
Proof.
  intros Hx Hy.
  destruct (Z.compare_spec h1 h2);
  destruct (Z.compare_spec x y);
  destruct (Z.compare_spec (h1 * 100 + x) (h2 * 100 + y)); simpl;
    try reflexivity; exfalso; lia.
Qed.

Lemma pad2_compare_small (a b : Z) (s t : string) :
  0 <= a < 100 -> 0 <= b < 100 ->
  String.compare (pad2 a s) (pad2 b t) = lex (a ?= b) (String.compare s t).
Proof.
  intros Ha Hb. rewrite pad2_compare.
  rewrite !(Z.mod_small (_ / 10) 10)
    by (split; [apply Z.div_pos | apply Z.div_lt_upper_bound]; lia).
  apply lex_div_mod. lia.
Qed.

Lemma pad2_mod (a : Z) (s : string) : pad2 a s = pad2 (a mod 100) s.
Proof.
  unfold pad2, digit. f_equal; [|f_equal]; f_equal; f_equal; f_equal.
  - Z.div_mod_to_equations; lia.
  - Z.div_mod_to_equations; lia.
Qed.

Lemma pad4_pad2 (a : Z) (s : string) : pad4 a s = pad2 (a / 100) (pad2 a s).
Proof.
  unfold pad4. unfold pad2 at 3.
  replace (a / 1000) with (a / 100 / 10)
    by (rewrite Z.div_div by lia; reflexivity).
  reflexivity.
Qed.

Lemma pad4_compare_small (a b : Z) (s t : string) :
  0 <= a < 10000 -> 0 <= b < 10000 ->
  String.compare (pad4 a s) (pad4 b t) = lex (a ?= b) (String.compare s t).
Proof.
  intros Ha Hb. rewrite !pad4_pad2.
  rewrite pad2_compare_small
    by (split; [apply Z.div_pos | apply Z.div_lt_upper_bound]; lia).
  rewrite (pad2_mod a), (pad2_mod b).
  rewrite pad2_compare_small by (apply Z.mod_pos_bound; lia).
  apply lex_div_mod. lia.
Qed.

Lemma separator_compare (c : ascii) (s t : string) :
  String.compare (String c s) (String c t) = String.compare s t.
Proof. simpl. now rewrite StrOrd.ascii_compare_refl. Qed.

Lemma lex_eq (c : comparison) : lex c Eq = c.
Proof. now destruct c. Qed.

(** The text order of two timestamps is the order of the clock readings. *)
Lemma current_timestamp_compare (t1 t2 : datetime) :
  in_range t1 -> in_range t2 ->
  String.compare (current_timestamp t1) (current_timestamp t2)
  = (ordinal t1 ?= ordinal t2).
Proof.
  unfold in_range, current_timestamp, ordinal.
  intros (Hy1 & Hm1 & Hd1 & Hh1 & Hi1 & Hs1) (Hy2 & Hm2 & Hd2 & Hh2 & Hi2 & Hs2).
  rewrite pad4_compare_small by lia.
  repeat (rewrite separator_compare; rewrite pad2_compare_small by lia).
  simpl (String.compare EmptyString EmptyString).
  rewrite !lex_shift by lia.
  apply lex_eq.
Qed.

Lemma before_ltb (t1 t2 : datetime) :
  in_range t1 -> in_range t2 -> before t1 t2 ->
  String.ltb (current_timestamp t1) (current_timestamp t2) = true.
Proof.
  intros H1 H2 Hb. unfold String.ltb.
  rewrite current_timestamp_compare by assumption.
  unfold before in Hb. apply Z.compare_lt_iff in Hb. now rewrite Hb.
Qed.

End ClockFacts.

(** ** Listing: [GET /api/notes] *)

Module ListFacts.
Import Server.

Lemma insert_desc_perm (n : Note) (l : list Note) :
  Permutation (insert_desc n l) (n :: l).
Proof.
  induction l as [|m l IH]; simpl; [reflexivity|].
  destruct (String.leb (created_at m) (created_at n)); [reflexivity|].
  rewrite IH. apply perm_swap.
Qed.

Lemma order_by_perm (rows : list Note) :
  Permutation (order_by_created_at_desc rows) rows.
Proof.
  induction rows as [|n rows IH]; simpl; [reflexivity|].
  rewrite insert_desc_perm. now constructor.
Qed.

Lemma insert_desc_sorted (n : Note) (l : list Note) :
  StronglySorted not_older l -> StronglySorted not_older (insert_desc n l).
Proof.
  induction 1 as [|m l Hl IH Hm]; simpl.
  - repeat constructor.
  - destruct (String.leb (created_at m) (created_at n)) eqn:E.
    + constructor; [now constructor|].
      constructor; [exact E|].
      eapply Forall_impl; [|exact Hm].
      intros x Hx. unfold not_older in *.
      now apply StrOrd.leb_trans with (created_at m).
    + constructor; [exact IH|].
      rewrite (insert_desc_perm n l).
      constructor; [|exact Hm].
      now apply StrOrd.leb_false_flip.
Qed.

Lemma order_by_sorted (rows : list Note) :
  StronglySorted not_older (order_by_created_at_desc rows).
Proof.
  induction rows as [|n rows IH]; simpl; [constructor|].
  now apply insert_desc_sorted.
Qed.

(** A row no older than every listed row goes first. *)
Lemma insert_desc_head (n : Note) (l : list Note) :
  Forall (not_older n) l -> insert_desc n l = n :: l.
Proof.
  destruct 1 as [|m l Hm _]; simpl; [reflexivity|].
  unfold not_older in Hm. now rewrite Hm.
Qed.

(** Listing after removing rows is the listing without those rows. *)
Lemma insert_desc_filter (f : Note -> bool) (n : Note) (l : list Note) :
  StronglySorted not_older l ->
  filter f (insert_desc n l)
  = if f n then insert_desc n (filter f l) else filter f l.
Proof.
  induction 1 as [|m l Hl IH Hm]; simpl.
  - now destruct (f n).
  - destruct (String.leb (created_at m) (created_at n)) eqn:E.
    + simpl. destruct (f n) eqn:Fn; [|reflexivity].
      destruct (f m) eqn:Fm.
      * simpl. now rewrite E.
      * symmetry. apply insert_desc_head.
        apply Forall_forall. intros x Hx.
        apply filter_In in Hx. destruct Hx as [Hx _].
        rewrite Forall_forall in Hm. specialize (Hm x Hx).
        unfold not_older in *.
        now apply StrOrd.leb_trans with (created_at m).
    + simpl. rewrite IH.
      destruct (f m) eqn:Fm; destruct (f n) eqn:Fn; simpl;
        try rewrite E; reflexivity.
Qed.

Lemma order_by_filter (f : Note -> bool) (rows : list Note) :
  order_by_created_at_desc (filter f rows)
  = filter f (order_by_created_at_desc rows).
Proof.
  induction rows as [|n rows IH]; simpl; [reflexivity|].
  rewrite insert_desc_filter by apply order_by_sorted.
  destruct (f n); simpl; now rewrite IH.
Qed.

(** Three rows with increasing creation texts have one sorted listing. *)
Lemma sorted_three (n1 n2 n3 : Note) (l : list Note) :
  String.ltb (created_at n1) (created_at n2) = true ->
  String.ltb (created_at n2) (created_at n3) = true ->
  Permutation l [n1; n2; n3] ->
  StronglySorted not_older l ->
  l = [n3; n2; n1].
Proof.
  intros H12 H23 Hp Hs.
  assert (H13 : String.ltb (created_at n1) (created_at n3) = true).
  { unfold String.ltb in *.
    destruct (String.compare (created_at n1) (created_at n2)) eqn:A;
      try discriminate.
    destruct (String.compare (created_at n2) (created_at n3)) eqn:B;
      try discriminate.
    now rewrite (StrOrd.compare_lt_trans _ _ _ A B). }
  assert (N12 := StrOrd.ltb_not_leb _ _ H12).
  assert (N23 := StrOrd.ltb_not_leb _ _ H23).
  assert (N13 := StrOrd.ltb_not_leb _ _ H13).
  assert (Hlen := Permutation_length Hp).
  destruct l as [|x [|y [|z [|w l]]]]; try discriminate Hlen.
  assert (Hin : forall n, In n [x; y; z] <-> In n [n1; n2; n3]).
  { intros n; split; apply Permutation_in; [exact Hp | now symmetry]. }
  inversion Hs as [|? ? Hs' Hx]; subst.
  inversion Hs' as [|? ? _ Hy]; subst.
  inversion Hx as [|? ? Hxy Hx']; subst.
  inversion Hx' as [|? ? Hxz _]; subst.
  inversion Hy as [|? ? Hyz _]; subst.
  unfold not_older in *.
  assert (Ix := proj1 (Hin x) (or_introl eq_refl)).
  assert (Iy := proj1 (Hin y) (or_intror (or_introl eq_refl))).
  assert (Iz := proj1 (Hin z) (or_intror (or_intror (or_introl eq_refl)))).
  assert (I1 := proj2 (Hin n1) (or_introl eq_refl)).
  assert (I2 := proj2 (Hin n2) (or_intror (or_introl eq_refl))).
  assert (I3 := proj2 (Hin n3) (or_intror (or_intror (or_introl eq_refl)))).
  simpl in *.
  assert (x = n3).
  { destruct I3 as [?|[?|[?|[]]]]; [congruence| |]; subst;
      destruct Ix as [?|[?|[?|[]]]]; subst; congruence. }
  assert (z = n1).
  { destruct I1 as [?|[?|[?|[]]]]; [| |congruence]; subst;
      destruct Iz as [?|[?|[?|[]]]]; subst; congruence. }
  subst x z.
  assert (y = n2).
  { destruct I2 as [?|[?|[?|[]]]]; [|congruence|]; subst;
      (rewrite StrOrd.leb_refl in N23 || rewrite StrOrd.leb_refl in N12);
      discriminate. }
  now subst.
Qed.



End ListFacts.

(** ** Creating: [POST /api/notes] *)

Module CreateFacts.
Import Server.

Lemma max_rowid_ge (rows : list Note) (n : Note) :
  In n rows -> id n <= max_rowid rows.
Proof.
  induction rows as [|m rows IH]; simpl; [tauto|].
  intros [->|Hn]; [lia|]. specialize (IH Hn). lia.
Qed.

Section Create.
Context `{Platform}.

Lemma insert_note_text (now : Clock.datetime) (s : string) (db : database) :
  last_rowid db < MAX_ROWID ->
  insert_note now (SqlText s) db
  = Inserted (with_note now s db) (last_rowid db + 1).
Proof.
  intros Hlast. unfold insert_note, with_note, last_rowid in *.
  destruct (MAX_ROWID <=? _) eqn:E; [|reflexivity].
  apply Z.leb_le in E. lia.
Qed.

Lemma insert_note_inserted (now : Clock.datetime) (v : sql_value)
    (db db' : database) (rowid : Z) :
  insert_note now v db = Inserted db' rowid ->
  rowid = last_rowid db + 1 /\
  exists text, db' = with_note now text db /\
               forall s, v = SqlText s -> text = s.
Proof.
  unfold insert_note, with_note, last_rowid.
  destruct v as [|x|s]; try discriminate;
    destruct (MAX_ROWID <=? _); try discriminate;
    intros [= <- <-]; (split; [reflexivity|]).
  - exists (text_of_number x). split; [reflexivity|]. discriminate.
  - exists s. split; [reflexivity|]. now intros ? [= ->].
Qed.

Lemma falsy_cases (v : JS.value) :
  JS.truthy v = false <->
  v = JS.VUndefined \/ v = JS.VNull \/ v = JS.VBool false \/
  (exists sign, v = JS.VNumber (S754_zero sign)) \/
  v = JS.VNumber S754_nan \/ v = JS.VString EmptyString.
Proof.
  split.
  - destruct v as [| |[]|[]|[]| |]; simpl; try discriminate; intros _; eauto 8.
  - intros [->|[->|[->|[[sign ->]|[->| ->]]]]]; reflexivity.
Qed.

(** How the handler ends, case by case. *)
Lemma post_notes_cases (now : Clock.datetime) (req_body content : JS.value)
    (db : database) :
  JS.destructure "content" req_body = Some content ->
  (JS.truthy content = false /\
   post_notes now req_body db
   = (db, {| status := 400; payload := ErrorJson "Content is required" |}))
  \/
  (JS.truthy content = true /\ post_notes now req_body db = (db, uncaught))
  \/
  (JS.truthy content = true /\
   exists text,
     post_notes now req_body db
     = (with_note now text db,
        json (CreatedJson (last_rowid db + 1) content)) /\
     forall s, content = JS.VString s -> text = s).
Proof.
  intros Hc. unfold post_notes. rewrite Hc.
  destruct (JS.truthy content) eqn:T; simpl; [right|left; now split].
  destruct (bind_parameter content) as [v|] eqn:B; [|left; now split].
  destruct (insert_note now v db) as [db' rowid|] eqn:I; [|left; now split].
  right. split; [reflexivity|].
  apply insert_note_inserted in I.
  destruct I as [-> (text & -> & Htext)].
  exists text. split; [reflexivity|].
  intros s ->.
  destruct s; [discriminate T|]. simpl in B. injection B as <-.
  now apply Htext.
Qed.

Lemma post_notes_string (now : Clock.datetime) (req_body : JS.value)
    (s : string) (db : database) :
  JS.destructure "content" req_body = Some (JS.VString s) ->
  s <> EmptyString ->
  last_rowid db < MAX_ROWID ->
  post_notes now req_body db
  = (with_note now s db,
     json (CreatedJson (last_rowid db + 1) (JS.VString s))).
Proof.
  intros Hc Hs Hlast. unfold post_notes. rewrite Hc.
  destruct s as [|c s]; [congruence|]. simpl.
  now rewrite (insert_note_text now (String c s) db Hlast).
Qed.

(** C2, as amended.  The create handler ends with the 400 validation
    error exactly when [content] is falsy: absent, null, false, a zero,
    NaN or the empty string; the store is then unchanged.  When it ends
    with 200 it has appended one note whose id is above the sequence and
    above every stored id, whose [created_at] is the current timestamp
    and whose content is the text sent, and it answers [{id, content}];
    non-empty text is accepted as long as the rowids are not used up. *)
Theorem create_validation (now : Clock.datetime)
    (req_body content : JS.value) (db db' : database) (r : response) :
  JS.destructure "content" req_body = Some content ->
  post_notes now req_body db = (db', r) ->
  (status r = 400 <-> JS.truthy content = false) /\
  (JS.truthy content = false <->
   content = JS.VUndefined \/ content = JS.VNull \/
   content = JS.VBool false \/
   (exists sign, content = JS.VNumber (S754_zero sign)) \/
   content = JS.VNumber S754_nan \/ content = JS.VString EmptyString) /\
  (status r = 400 ->
   db' = db /\ payload r = ErrorJson "Content is required") /\
  (status r = 200 ->
   exists rowid text,
     payload r = CreatedJson rowid content /\
     notes db' = (notes db ++
       [ {| id := rowid; content := text;
            created_at := Clock.current_timestamp now |} ])%list /\
     sqlite_sequence db' = rowid /\
     sqlite_sequence db < rowid /\
     (forall n, In n (notes db) -> id n < rowid) /\
     (forall s, content = JS.VString s -> text = s)) /\
  (forall s, content = JS.VString s -> s <> EmptyString ->
             last_rowid db < MAX_ROWID -> status r = 200).
Proof.
  intros Hc Hp.
  split; [|split; [apply falsy_cases|]].
  - destruct (post_notes_cases now req_body content db Hc)
      as [[T E]|[[T E]|[T (text & E & _)]]];
      rewrite E in Hp; injection Hp as <- <-; simpl;
      split; congruence.
  - split; [|split].
    + destruct (post_notes_cases now req_body content db Hc)
        as [[T E]|[[T E]|[T (text & E & _)]]];
        rewrite E in Hp; injection Hp as <- <-; simpl;
        (discriminate || (intros _; now split)).
    + destruct (post_notes_cases now req_body content db Hc)
        as [[T E]|[[T E]|[T (text & E & Htext)]]];
        rewrite E in Hp; injection Hp as <- <-; simpl; try discriminate.
      intros _. exists (last_rowid db + 1), text.
      repeat split; try reflexivity; try assumption.
      * unfold last_rowid. lia.
      * intros n Hn. apply max_rowid_ge in Hn. unfold last_rowid. lia.
    + intros s -> Hs Hlast.
      rewrite (post_notes_string now req_body s db Hc Hs Hlast) in Hp.
      now injection Hp as <- <-.
Qed.

(** C9.  The create handler decides on the truthiness of [content]: text
    made of white space only is accepted and stored as it is, and a falsy
    value that is not a string is answered with the 400 validation error,
    the store unchanged. *)
Theorem create_checks_truthiness (now : Clock.datetime)
    (req_body content : JS.value) (db : database) :
  JS.destructure "content" req_body = Some content ->
  (status (snd (post_notes now req_body db)) = 400 <->
   JS.truthy content = false) /\
  (forall s, content = JS.VString s -> s <> EmptyString ->
             JS.blank s = true -> last_rowid db < MAX_ROWID ->
     post_notes now req_body db
     = ({| notes := notes db ++
             [ {| id := last_rowid db + 1; content := s;
                  created_at := Clock.current_timestamp now |} ];
           sqlite_sequence := last_rowid db + 1 |},
        json (CreatedJson (last_rowid db + 1) (JS.VString s)))) /\
  ((forall s, content <> JS.VString s) -> JS.truthy content = false ->
     post_notes now req_body db
     = (db, {| status := 400; payload := ErrorJson "Content is required" |})).
Proof.
  intros Hc. split; [|split].
  - destruct (post_notes_cases now req_body content db Hc)
      as [[T E]|[[T E]|[T (text & E & _)]]];
      rewrite E; simpl; split; congruence.
  - intros s -> Hs _ Hlast.
    now rewrite (post_notes_string now req_body s db Hc Hs Hlast).
  - intros _ T. unfold post_notes. rewrite Hc, T. reflexivity.
Qed.

End Create.

(** C2, as first stated, fails: [{"content": 0}] holds a [content] that
    is neither absent nor empty, and it is answered with the 400
    validation error. *)
Lemma create_rejects_zero :
  JS.destructure "content"
    (JS.VObject [("content", JS.VNumber (S754_zero false))])
  = Some (JS.VNumber (S754_zero false)) /\
  JS.VNumber (S754_zero false) <> JS.VUndefined /\
  JS.VNumber (S754_zero false) <> JS.VString EmptyString /\
  post_notes (Sample.at_second 0)
    (JS.VObject [("content", JS.VNumber (S754_zero false))]) empty_db
  = (empty_db,
     {| status := 400; payload := ErrorJson "Content is required" |}).
Proof. repeat split; discriminate. Qed.

Lemma create_validation_witness :
  (status (json (CreatedJson 1 (JS.VString "buy milk"))) = 400 <->
   JS.truthy (JS.VString "buy milk") = false) /\
  status (json (CreatedJson 1 (JS.VString "buy milk"))) = 200.
Proof.
  pose proof (create_validation (Sample.at_second 7)
    (Sample.with_content (JS.VString "buy milk")) (JS.VString "buy milk")
    empty_db _ _ eq_refl eq_refl) as (Hiff & _ & _ & _ & Hok).
  split; [exact Hiff|].
  apply (Hok "buy milk" eq_refl); [discriminate | reflexivity].
Defined.

Lemma create_checks_truthiness_witness :
  post_notes (Sample.at_second 7) (Sample.with_content (JS.VString " "))
    empty_db
  = ({| notes := [ {| id := 1; content := " ";
                      created_at := "2024-05-17 09:30:07" |} ];
        sqlite_sequence := 1 |},
     json (CreatedJson 1 (JS.VString " "))) /\
  post_notes (Sample.at_second 7) (Sample.with_content (JS.VBool false))
    empty_db
  = (empty_db, {| status := 400; payload := ErrorJson "Content is required" |}).
Proof.
  split.
  - apply (proj1 (proj2 (create_checks_truthiness (Sample.at_second 7)
      (Sample.with_content (JS.VString " ")) (JS.VString " ") empty_db
      eq_refl)) " " eq_refl); [discriminate | reflexivity | reflexivity].
  - apply (proj2 (proj2 (create_checks_truthiness (Sample.at_second 7)
      (Sample.with_content (JS.VBool false)) (JS.VBool false) empty_db
      eq_refl))); [discriminate | reflexivity].
Defined.

End CreateFacts.

(** ** Deleting: [DELETE /api/notes/:id] *)

Module DeleteFacts.
Import Server.

Section Delete.
Context `{Platform}.

Lemma filter_all (A : Type) (f : A -> bool) (l : list A) :
  (forall x, In x l -> f x = true) -> filter f l = l.
Proof.
  induction l as [|a l IH]; simpl; intros Hall; [reflexivity|].
  rewrite (Hall a (or_introl eq_refl)). f_equal.
  apply IH. intros x Hx. apply Hall. now right.
Qed.

Lemma delete_note_absent (param : string) (db : database) :
  (forall n, In n (notes db) -> id_equals param (id n) = false) ->
  delete_note param db = db.
Proof.
  intros Habs. unfold delete_note. destruct db as [rows seq]; simpl in *.
  f_equal. apply filter_all. intros n Hn. now rewrite (Habs n Hn).
Qed.

Lemma id_equals_true (param : string) (rowid : Z) :
  id_equals param rowid = true <-> integer_of_text param = Some rowid.
Proof.
  unfold id_equals. destruct (integer_of_text param) as [z|].
  - rewrite Z.eqb_eq. split; congruence.
  - split; discriminate.
Qed.

(** The listing after a delete is the listing before it without the rows
    the parameter selects. *)
Lemma select_after_delete (param : string) (db : database) :
  select_notes (delete_note param db)
  = filter (fun n => negb (id_equals param (id n))) (select_notes db).
Proof. unfold select_notes, delete_note; simpl. apply ListFacts.order_by_filter. Qed.

(** C3.  The delete handler always answers [{success: true}].  When the
    parameter denotes the id [i], no note with id [i] is in a later
    listing, and the listing is otherwise the same; when no stored note
    has the id the parameter denotes, the store is unchanged. *)
Theorem delete_idempotent (param : string) (db : database) :
  snd (delete_notes param db) = json (SuccessJson true) /\
  (forall i, integer_of_text param = Some i ->
     (forall n, In n (select_notes (fst (delete_notes param db))) ->
                id n <> i) /\
     select_notes (fst (delete_notes param db))
     = filter (fun n => negb (id n =? i)) (select_notes db)) /\
  ((forall n, In n (notes db) -> integer_of_text param <> Some (id n)) ->
     fst (delete_notes param db) = db).
Proof.
  unfold delete_notes; simpl. split; [reflexivity|]. split.
  - intros i Hi. rewrite select_after_delete.
    assert (E : forall n, id_equals param (id n) = (id n =? i)).
    { intros n. unfold id_equals. rewrite Hi. apply Z.eqb_sym. }
    split.
    + intros n Hn. apply filter_In in Hn. destruct Hn as [_ Hn].
      rewrite E in Hn. apply negb_true_iff, Z.eqb_neq in Hn. exact Hn.
    + apply filter_ext. intros n. now rewrite E.
  - intros Habs. apply delete_note_absent. intros n Hn.
    destruct (id_equals param (id n)) eqn:E; [|reflexivity].
    apply id_equals_true in E. now apply Habs in Hn.
Qed.

End Delete.

Lemma delete_idempotent_witness :
  select_notes (fst (delete_notes "2" Sample.shuffled))
  = [ {| id := 3; content := "two"; created_at := "2024-05-17 09:30:02" |};
      {| id := 1; content := "one"; created_at := "2024-05-17 09:30:01" |} ]
  /\ fst (delete_notes "7" Sample.shuffled) = Sample.shuffled.
Proof.
  pose proof (delete_idempotent "2" Sample.shuffled) as (_ & Hdel & _).
  pose proof (delete_idempotent "7" Sample.shuffled) as (_ & _ & Habs).
  split.
  - rewrite (proj2 (Hdel 2 eq_refl)). reflexivity.
  - apply Habs. intros n [<-|[<-|[<-|[]]]]; discriminate.
Defined.

End DeleteFacts.

(** ** Routing *)

Module RouteFacts.
Import Server.

Lemma strip_prefix_spec (prefix path rest : string) :
  strip_prefix prefix path = Some rest <->
  exists head, path = head ++ rest /\
               lower_string head = lower_string prefix.
Proof.
  revert path. induction prefix as [|p prefix IH]; intros path; simpl.
  - split.
    + intros [= ->]. now exists EmptyString.
    + intros ([|c head] & -> & Hl); [reflexivity|discriminate].
  - destruct path as [|c path].
    + split; [discriminate|].
      intros ([|c head] & Hp & Hl); discriminate.
    + destruct (Ascii.eqb (lower p) (lower c)) eqn:E.
      * apply Ascii.eqb_eq in E. rewrite IH. split.
        -- intros (head & -> & Hl). exists (String c head).
           split; [reflexivity|]. simpl. now rewrite Hl, E.
        -- intros ([|c' head] & Hp & Hl); [discriminate|].
           simpl in Hp, Hl. injection Hp as <- ->. injection Hl as _ Hl.
           now exists head.
      * apply Ascii.eqb_neq in E. split; [discriminate|].
        intros ([|c' head] & Hp & Hl); [discriminate|].
        simpl in Hp, Hl. injection Hp as <- ->. injection Hl as Hc _.
        congruence.
Qed.

Lemma lower_string_app (s t : string) :
  lower_string (s ++ t) = lower_string s ++ lower_string t.
Proof. induction s as [|c s IH]; simpl; [reflexivity|now rewrite IH]. Qed.

(** ["/api/notes"] matches the path itself and the path with a trailing
    slash, letters in either case, and nothing else. *)
Lemma match_collection_spec (path : string) :
  match_collection path = true <->
  lower_string path = "/api/notes" \/ lower_string path = "/api/notes/".
Proof.
  unfold match_collection.
  destruct (strip_prefix "/api/notes" path) as [rest|] eqn:E.
  - apply strip_prefix_spec in E. destruct E as (head & -> & Hl).
    rewrite lower_string_app, Hl.
    change (lower_string "/api/notes") with "/api/notes".
    destruct rest as [|c [|d rest]].
    + split; [now left|reflexivity].
    + rewrite Ascii.eqb_eq. split.
      * intros ->. now right.
      * intros [E|E]; [discriminate E|].
        simpl in E. injection E as E'. rename E' into E.
        unfold lower in E.
        destruct ((65 <=? N_of_ascii c) && (N_of_ascii c <=? 90))%N eqn:B;
          [|exact E].
        exfalso. apply (f_equal N_of_ascii) in E.
        apply andb_true_iff in B. destruct B as [B1 B2].
        apply N.leb_le in B1, B2.
        rewrite N_ascii_embedding in E by lia. simpl in E. lia.
    + split; [discriminate|]. intros [E|E]; discriminate E.
  - split; [discriminate|].
    assert (N : forall rest, ~ (exists head, path = head ++ rest /\
                 lower_string head = lower_string "/api/notes")).
    { intros rest Hex. apply strip_prefix_spec in Hex. congruence. }
    intros [L|L].
    + exfalso. apply (N EmptyString). exists path. split; [|exact L].
      clear. induction path as [|c p IH]; simpl; [reflexivity|now rewrite <- IH].
    + exfalso.
      assert (Hsplit : exists head c, path = head ++ String c EmptyString /\
                 lower_string head = "/api/notes").
      { clear N E. do 11 (destruct path as [|? path]; [discriminate L|]).
        destruct path; [|discriminate L].
        simpl in L. injection L as L1 L2 L3 L4 L5 L6 L7 L8 L9 L10 L11.
        eexists (String _ (String _ (String _ (String _ (String _
                (String _ (String _ (String _ (String _ (String _
                 EmptyString)))))))))), _.
        split; [reflexivity|]. simpl. congruence. }
      destruct Hsplit as (head & c & Hp & Hl).
      apply (N (String c EmptyString)). now exists head.
Qed.

Lemma drop_trailing_slash_id (s : string) :
  has_slash s = false -> drop_trailing_slash s = s.
Proof.
  induction s as [|c s IH]; simpl; [reflexivity|].
  intros Hs. apply orb_false_iff in Hs. destruct Hs as [Hc Hs].
  destruct s as [|d s]; [now rewrite Hc|].
  now rewrite (IH Hs).
Qed.

(** ["/api/notes/:id"] matches one non-empty segment, as it is written. *)
Lemma match_item_segment (segment : string) :
  segment <> EmptyString -> has_slash segment = false ->
  match_item ("/api/notes/" ++ segment) = Some segment.
Proof.
  intros Hne Hs. unfold match_item.
  change (strip_prefix "/api/notes/" ("/api/notes/" ++ segment))
    with (Some segment).
  cbv beta iota zeta.
  rewrite (drop_trailing_slash_id segment Hs).
  destruct segment; [congruence|]. now rewrite Hs.
Qed.

End RouteFacts.

(** ** The API surface *)

Module ApiFacts.
Import Server.

Section Api.
Context `{Platform}.

(** C10.  The delete handler hands the path parameter to the statement
    as the string it is, and answers [{success: true}] for every
    parameter: one that denotes no integer selects no row and leaves the
    store as it is, and a DELETE request whose path segment decodes to the
    parameter does just that. *)
Theorem delete_takes_raw_id (now : Clock.datetime) (param : string)
    (req_body : JS.value) (db : database) :
  delete_notes param db = (delete_note param db, json (SuccessJson true)) /\
  (integer_of_text param = None ->
     delete_notes param db = (db, json (SuccessJson true))) /\
  (forall segment,
     segment <> EmptyString -> has_slash segment = false ->
     decodeURIComponent segment = Some param ->
     serve now {| req_method := DELETE;
                  req_path := "/api/notes/" ++ segment;
                  req_body := req_body |} db
     = (delete_note param db, Responded (json (SuccessJson true)))).
Proof.
  split; [reflexivity|]. split.
  - intros Hnone. unfold delete_notes. f_equal.
    apply DeleteFacts.delete_note_absent. intros n _.
    unfold id_equals. now rewrite Hnone.
  - intros segment Hne Hs Hd. unfold serve.
    cbv [req_method req_path].
    rewrite (RouteFacts.match_item_segment segment Hne Hs), Hd.
    reflexivity.
Qed.

(** C5, as amended.  The API answers exactly the requests that match
    one of three routes: GET (and HEAD) on [/api/notes], answered by the
    array of [{id, content, created_at}]; POST on [/api/notes], answered
    by [{id, content}], by the 400 [{error}], or by the 500 page when the
    driver or the store throws; DELETE on [/api/notes/:id], answered by
    [{success: true}], or by the 400 page when the segment does not
    decode.  Every other request is left to the layers that follow.
    [/api/notes] matches with or without a trailing slash, in any case. *)
Theorem api_routes (now : Clock.datetime) (req : request) (db : database) :
  (snd (serve now req db) <> NextLayer <->
     ((req_method req = GET \/ req_method req = HEAD) /\
      match_collection (req_path req) = true) \/
     (req_method req = POST /\ match_collection (req_path req) = true) \/
     (req_method req = DELETE /\
      exists segment, match_item (req_path req) = Some segment)) /\
  (snd (serve now req db) = NextLayer -> fst (serve now req db) = db) /\
  (req_method req = GET \/ req_method req = HEAD ->
   match_collection (req_path req) = true ->
     serve now req db = (db, Responded (json (NotesJson (select_notes db))))) /\
  (req_method req = POST -> match_collection (req_path req) = true ->
     exists db' r, serve now req db = (db', Responded r) /\
       ((status r = 200 /\
         exists rowid content, payload r = CreatedJson rowid content) \/
        (db' = db /\ status r = 400 /\
         payload r = ErrorJson "Content is required") \/
        (db' = db /\ r = uncaught))) /\
  (req_method req = DELETE ->
   forall segment, match_item (req_path req) = Some segment ->
     (forall id, decodeURIComponent segment = Some id ->
        serve now req db
        = (delete_note id db, Responded (json (SuccessJson true)))) /\
     (decodeURIComponent segment = None ->
        serve now req db
        = (db, Responded {| status := 400; payload := ErrorPage |}))) /\
  (match_collection (req_path req) = true <->
     lower_string (req_path req) = "/api/notes" \/
     lower_string (req_path req) = "/api/notes/").
Proof.
  split; [|split; [|split; [|split; [|split]]]].
  - unfold serve.
    destruct (req_method req) eqn:M;
      destruct (match_collection (req_path req)) eqn:C;
      destruct (match_item (req_path req)) as [segment|] eqn:I;
      try destruct (decodeURIComponent segment);
      unfold get_notes, delete_notes;
      try destruct (post_notes now (req_body req) db);
      simpl; split;
      try (intros _; eauto 8; fail);
      try discriminate;
      try (intros Hn; now elim Hn);
      intros [[[?|?] ?]|[[? ?]|[? [? ?]]]]; discriminate.
  - unfold serve.
    destruct (req_method req);
      destruct (match_collection (req_path req));
      destruct (match_item (req_path req)) as [segment|];
      try destruct (decodeURIComponent segment);
      unfold get_notes, delete_notes;
      try destruct (post_notes now (req_body req) db);
      simpl; try reflexivity; discriminate.
  - intros [M|M] C; unfold serve; rewrite M, C; reflexivity.
  - intros M C. unfold serve. rewrite M, C.
    destruct (JS.destructure "content" (req_body req)) as [content|] eqn:D.
    + destruct (CreateFacts.post_notes_cases now (req_body req) content db D)
        as [[T E]|[[T E]|[T (text & E & _)]]]; rewrite E;
        do 2 eexists; (split; [reflexivity|]).
      * right; left. simpl. auto.
      * right; right. auto.
      * left. simpl. eauto.
    + unfold post_notes. rewrite D. do 2 eexists.
      split; [reflexivity|]. right; right. auto.
  - intros M segment I. unfold serve. rewrite M, I. split.
    + intros id ->. reflexivity.
    + intros ->. reflexivity.
  - apply RouteFacts.match_collection_spec.
Qed.

End Api.

(** C5, as first stated, fails: the paths [/notes] and [/notes/1] match
    no route of the API; the request is passed on and the store is not
    touched. *)
Lemma notes_path_not_routed :
  serve (Sample.at_second 4)
    {| req_method := GET; req_path := "/notes";
       req_body := JS.VObject [] |} Sample.shuffled
  = (Sample.shuffled, NextLayer) /\
  serve (Sample.at_second 4)
    {| req_method := POST; req_path := "/notes";
       req_body := Sample.with_content (JS.VString "eggs") |} Sample.shuffled
  = (Sample.shuffled, NextLayer) /\
  serve (Sample.at_second 4)
    {| req_method := DELETE; req_path := "/notes/1";
       req_body := JS.VObject [] |} Sample.shuffled
  = (Sample.shuffled, NextLayer).
Proof. repeat split. Qed.

Lemma delete_takes_raw_id_witness :
  delete_notes "abc" empty_db = (empty_db, json (SuccessJson true)) /\
  serve (Sample.at_second 2)
    {| req_method := DELETE; req_path := "/api/notes/abc";
       req_body := JS.VObject [] |} empty_db
  = (delete_note "abc" empty_db, Responded (json (SuccessJson true))).
Proof.
  pose proof (delete_takes_raw_id (Sample.at_second 2) "abc"
                (JS.VObject []) empty_db) as (_ & Hnone & Hserve).
  split.
  - apply Hnone. reflexivity.
  - apply (Hserve "abc"); [discriminate | reflexivity | reflexivity].
Defined.

Lemma api_routes_witness :
  serve (Sample.at_second 2)
    {| req_method := GET; req_path := "/api/notes";
       req_body := JS.VObject [] |} empty_db
  = (empty_db, Responded (json (NotesJson []))).
Proof.
  apply (proj1 (proj2 (proj2 (api_routes (Sample.at_second 2)
    {| req_method := GET; req_path := "/api/notes";
       req_body := JS.VObject [] |} empty_db))));
    [left; reflexivity | reflexivity].
Defined.

End ApiFacts.

(** ** The store over sequences of requests *)

Module StoreFacts.
Import Server.

Section Store.
Context `{Platform}.

(** A request leaves the store as it is, inserts one note, or deletes by
    id; a created id is reported only by an insertion. *)
Lemma serve_cases (now : Clock.datetime) (req : request) (db : database) :
  (fst (serve now req db) = db /\
   created_id (snd (serve now req db)) = None) \/
  (exists text,
     fst (serve now req db) = with_note now text db /\
     created_id (snd (serve now req db)) = Some (last_rowid db + 1)) \/
  (exists param,
     fst (serve now req db) = delete_note param db /\
     created_id (snd (serve now req db)) = None).
Proof.
  unfold serve.
  destruct (req_method req);
    try (left; split; reflexivity);
    try (destruct (match_collection (req_path req));
         [|left; split; reflexivity]).
  - left. split; reflexivity.
  - left. split; reflexivity.
  - destruct (JS.destructure "content" (req_body req)) as [content|] eqn:D.
    + destruct (CreateFacts.post_notes_cases now (req_body req) content db D)
        as [[T E]|[[T E]|[T (text & E & _)]]]; rewrite E.
      * left. split; reflexivity.
      * left. split; reflexivity.
      * right; left. exists text. split; reflexivity.
    + unfold post_notes. rewrite D. left. split; reflexivity.
  - destruct (match_item (req_path req)) as [segment|];
      [|left; split; reflexivity].
    destruct (decodeURIComponent segment) as [param|];
      [|left; split; reflexivity].
    right; right. exists param. split; reflexivity.
Qed.

Lemma last_rowid_consistent (db : database) :
  consistent db -> last_rowid db = Z.max (sqlite_sequence db) 0.
Proof.
  intros [_ Hseq]. unfold last_rowid.
  assert (max_rowid (notes db) <= Z.max (sqlite_sequence db) 0).
  { induction Hseq as [|n rows Hn _ IH]; simpl; lia. }
  assert (0 <= max_rowid (notes db)).
  { clear. induction (notes db); simpl; lia. }
  lia.
Qed.

Lemma with_note_consistent (now : Clock.datetime) (text : string)
    (db : database) :
  consistent db -> consistent (with_note now text db).
Proof.
  intros Hc. pose proof (last_rowid_consistent db Hc) as Hlast.
  destruct Hc as [Hnd Hseq]. unfold consistent, with_note. simpl.
  rewrite Forall_forall in Hseq.
  split.
  - rewrite map_app. simpl.
    apply NoDup_app_remove_l with (l := []). simpl.
    apply Permutation_NoDup
      with (l := (last_rowid db + 1) :: map id (notes db)).
    + apply Permutation_cons_append.
    + constructor; [|exact Hnd].
      intros Hin. apply in_map_iff in Hin. destruct Hin as (n & Hid & Hn).
      apply Hseq in Hn. lia.
  - apply Forall_app. split.
    + apply Forall_forall. intros n Hn. apply Hseq in Hn. lia.
    + repeat constructor. simpl. lia.
Qed.

Lemma NoDup_map_filter (A B : Type) (g : A -> B) (f : A -> bool)
    (l : list A) :
  NoDup (map g l) -> NoDup (map g (filter f l)).
Proof.
  induction l as [|a l IH]; simpl; [trivial|].
  intros Hnd. inversion Hnd as [|? ? Hnotin Hnd']; subst.
  destruct (f a); simpl; [|now apply IH].
  constructor; [|now apply IH].
  intros Hin. apply Hnotin.
  apply in_map_iff in Hin. destruct Hin as (x & Hx & Hin).
  apply filter_In in Hin. apply in_map_iff. exists x. tauto.
Qed.

Lemma delete_note_consistent (param : string) (db : database) :
  consistent db -> consistent (delete_note param db).
Proof.
  intros [Hnd Hseq]. unfold consistent, delete_note. simpl. split.
  - now apply NoDup_map_filter.
  - rewrite Forall_forall in *. intros n Hn.
    apply filter_In in Hn. now apply Hseq.
Qed.

Lemma step_consistent (db : database) (e : event) :
  consistent db -> consistent (step db e).
Proof.
  intros Hc. unfold step.
  destruct (serve_cases (fst e) (snd e) db)
    as [[-> _]|[(text & -> & _)|(param & -> & _)]].
  - exact Hc.
  - now apply with_note_consistent.
  - now apply delete_note_consistent.
Qed.

Lemma run_consistent (events : list event) (db : database) :
  consistent db -> consistent (run events db).
Proof.
  revert db. induction events as [|e events IH]; intros db Hc; simpl.
  - exact Hc.
  - apply IH. now apply step_consistent.
Qed.

Lemma run_app (before after : list event) (db : database) :
  run (before ++ after) db = run after (run before db).
Proof. unfold run. apply fold_left_app. Qed.

(** The notes of the store after a request: each was there before, or is
    the note just inserted. *)
Lemma step_notes (db : database) (e : event) :
  notes (step db e) = notes db \/
  (exists n, notes (step db e) = (notes db ++ [n])%list /\
             id n = last_rowid db + 1 /\
             sqlite_sequence (step db e) = last_rowid db + 1) \/
  (exists f, notes (step db e) = filter f (notes db) /\
             sqlite_sequence (step db e) = sqlite_sequence db).
Proof.
  unfold step.
  destruct (serve_cases (fst e) (snd e) db)
    as [[-> _]|[(text & -> & _)|(param & -> & _)]].
  - now left.
  - right; left. eexists. split; [reflexivity|]. split; reflexivity.
  - right; right. eexists. split; reflexivity.
Qed.

Lemma step_frame (db : database) (e : event) (n : Note) :
  In n (notes (step db e)) ->
  In n (notes db) \/ sqlite_sequence db < id n.
Proof.
  destruct (step_notes db e) as [->|[(m & -> & Hid & _)|(f & -> & _)]].
  - now left.
  - intros Hin. apply in_app_or in Hin. destruct Hin as [Hin|[<-|[]]].
    + now left.
    + right. unfold last_rowid in Hid. lia.
  - intros Hin. apply filter_In in Hin. now left.
Qed.

Lemma step_sequence (db : database) (e : event) :
  sqlite_sequence db <= sqlite_sequence (step db e).
Proof.
  destruct (step_notes db e) as [E|[(m & _ & _ & ->)|(f & _ & ->)]].
  - unfold step in *.
    destruct (serve_cases (fst e) (snd e) db)
      as [[-> _]|[(text & -> & _)|(param & -> & _)]]; simpl;
      unfold last_rowid; lia.
  - unfold last_rowid. lia.
  - lia.
Qed.

Lemma run_frame (events : list event) (db : database) (n : Note) :
  In n (notes (run events db)) ->
  In n (notes db) \/ sqlite_sequence db < id n.
Proof.
  revert db. induction events as [|e events IH]; intros db; simpl.
  - now left.
  - intros Hin. apply IH in Hin. destruct Hin as [Hin|Hlt].
    + now apply step_frame in Hin.
    + right. pose proof (step_sequence db e). lia.
Qed.

Lemma NoDup_map_inj (rows : list Note) (n n' : Note) :
  NoDup (map id rows) -> In n rows -> In n' rows -> id n' = id n -> n' = n.
Proof.
  induction rows as [|m rows IH]; simpl; [tauto|].
  intros Hnd. inversion Hnd as [|? ? Hnotin Hnd']; subst.
  intros [->|Hn] [->|Hn'] Hid; try reflexivity.
  - exfalso. apply Hnotin. rewrite <- Hid. now apply in_map.
  - exfalso. apply Hnotin. rewrite Hid. now apply in_map.
  - now apply IH.
Qed.

(** C7.  Starting from a consistent store, a request changes the rows of
    the table only by appending one new note or by removing rows, and a
    note found in the store after some requests is found unchanged, with
    the content and the [created_at] it had, whenever a note with its id
    is in the store after further requests. *)
Theorem notes_immutable (db : database) :
  consistent db ->
  (forall e : event,
     notes (step db e) = notes db \/
     (exists n, notes (step db e) = (notes db ++ [n])%list /\
                forall m, In m (notes db) -> id m < id n) \/
     (exists f, notes (step db e) = filter f (notes db))) /\
  (forall (before after : list event) (n n' : Note),
     In n (notes (run before db)) ->
     In n' (notes (run (before ++ after) db)) ->
     id n' = id n ->
     n' = n /\ content n' = content n /\ created_at n' = created_at n).
Proof.
  intros Hc. split.
  - intros e.
    destruct (step_notes db e) as [E|[(m & E & Hid & _)|(f & E & _)]].
    + now left.
    + right; left. exists m. split; [exact E|].
      intros m' Hm'. apply CreateFacts.max_rowid_ge in Hm'.
      unfold last_rowid in Hid. lia.
    + right; right. now exists f.
  - intros before after n n' Hn Hn' Hid.
    rewrite run_app in Hn'.
    pose proof (run_consistent before db Hc) as [Hnd Hseq].
    assert (n' = n); [|now subst].
    apply run_frame in Hn'. destruct Hn' as [Hn'|Hlt].
    + now apply (NoDup_map_inj (notes (run before db))).
    + rewrite Forall_forall in Hseq. apply Hseq in Hn. lia.
Qed.

Lemma serve_sequence (now : Clock.datetime) (req : request)
    (db : database) :
  sqlite_sequence db <= sqlite_sequence (fst (serve now req db)).
Proof. apply (step_sequence db (now, req)). Qed.

Lemma created_ids_above (events : list event) (db : database) :
  consistent db ->
  Forall (fun i => sqlite_sequence db < i) (created_ids events db).
Proof.
  revert db. induction events as [|e events IH]; intros db Hc; simpl.
  - constructor.
  - pose proof (step_consistent db e Hc) as Hc'.
    pose proof (serve_sequence (fst e) (snd e) db) as Hmono.
    unfold step in Hc'.
    destruct (serve_cases (fst e) (snd e) db)
      as [[E O]|[(text & E & O)|(param & E & O)]];
      destruct (serve (fst e) (snd e) db) as [db' o];
      simpl in E, O, Hc', Hmono; rewrite O;
      specialize (IH db' Hc');
      try (eapply Forall_impl; [|exact IH]; simpl; intros; lia).
    constructor.
    + unfold last_rowid. lia.
    + eapply Forall_impl; [|exact IH]. simpl. intros; lia.
Qed.

Lemma created_ids_sorted (events : list event) (db : database) :
  consistent db -> StronglySorted Z.lt (created_ids events db).
Proof.
  revert db. induction events as [|e events IH]; intros db Hc; simpl.
  - constructor.
  - pose proof (step_consistent db e Hc) as Hc'. unfold step in Hc'.
    destruct (serve_cases (fst e) (snd e) db)
      as [[E O]|[(text & E & O)|(param & E & O)]];
      destruct (serve (fst e) (snd e) db) as [db' o] eqn:S;
      simpl in E, O, Hc'; rewrite O; try now apply IH.
    constructor; [now apply IH|].
    pose proof (created_ids_above events db' Hc') as Habove.
    eapply Forall_impl; [|exact Habove]. simpl.
    intros i Hi. subst db'. simpl in Hi. exact Hi.
Qed.

(** C8.  In every store reached from a consistent one the ids are
    pairwise distinct; a create that succeeds appends a note with the id
    it reports; and the ids created by a sequence of requests are
    strictly increasing, each above the sequence, and so above every id
    held or assigned before. *)
Theorem ids_unique_increasing (db : database) (events : list event) :
  consistent db ->
  NoDup (map id (notes (run events db))) /\
  (forall now req i,
     created_id (snd (serve now req db)) = Some i ->
     exists n, notes (fst (serve now req db)) = (notes db ++ [n])%list /\
               id n = i) /\
  StronglySorted Z.lt (created_ids events db) /\
  Forall (fun i => sqlite_sequence db < i /\
                   forall n, In n (notes db) -> id n < i)
         (created_ids events db).
Proof.
  intros Hc. split; [|split; [|split]].
  - apply (run_consistent events db Hc).
  - intros now req i Hi.
    destruct (serve_cases now req db)
      as [[E O]|[(text & E & O)|(param & E & O)]];
      rewrite O in Hi; try discriminate.
    injection Hi as <-. rewrite E. simpl. eexists. split; reflexivity.
  - now apply created_ids_sorted.
  - eapply Forall_impl; [|exact (created_ids_above events db Hc)].
    simpl. intros i Hi. split; [exact Hi|].
    intros n Hn. destruct Hc as [_ Hseq].
    rewrite Forall_forall in Hseq. apply Hseq in Hn. lia.
Qed.

End Store.

Lemma empty_db_consistent : consistent empty_db.
Proof. split; constructor. Qed.

Lemma notes_immutable_witness :
  In {| id := 1; content := "buy milk";
        created_at := "2024-05-17 09:30:01" |}
     (notes (run (firstn 2 Sample.session) empty_db)) /\
  In {| id := 1; content := "buy milk";
        created_at := "2024-05-17 09:30:01" |}
     (notes (run Sample.session empty_db)).
Proof.
  pose proof (notes_immutable empty_db empty_db_consistent) as [_ Himm].
  split; [left; reflexivity|].
  assert (Hin : In (nth 0 (notes (run Sample.session empty_db))
                       {| id := 0; content := EmptyString;
                          created_at := EmptyString |})
                   (notes (run Sample.session empty_db))).
  { left. reflexivity. }
  destruct (Himm (firstn 2 Sample.session) (skipn 2 Sample.session)
              {| id := 1; content := "buy milk";
                 created_at := "2024-05-17 09:30:01" |} _
              (or_introl eq_refl) Hin eq_refl) as [<- _].
  exact Hin.
Defined.

Lemma ids_unique_increasing_witness :
  created_ids Sample.session empty_db = [1; 2; 3] /\
  StronglySorted Z.lt (created_ids Sample.session empty_db).
Proof.
  split; [reflexivity|].
  apply (ids_unique_increasing empty_db Sample.session empty_db_consistent).
Defined.

End StoreFacts.

(** ** The chat turn *)

Module ChatFacts.
Import App.

Lemma handleChat_submits (result : model_result) (s : state) :
  submits s ->
  handleChat result s
  = (Some (chat_request (notes s) (input s)),
     Normal {| notes := notes s;
               messages := messages s ++
                 [ {| msg_role := user; text := input s |};
                   {| msg_role := ai; text := reply result |} ];
               input := EmptyString;
               isLoading := false |}).
Proof.
  intros [Hb Hl]. unfold handleChat. rewrite Hb, Hl. simpl.
  unfold try_catch_finally, try_block, push, setIsLoading, setInput; simpl.
  destruct result as [|[[|c t]|]]; simpl;
    rewrite <- app_assoc; reflexivity.
Qed.

(** C4, as amended.  No chat turn ends in an exception.  In a turn that
    takes place the user's message and one reply are appended: the fixed
    apology ["Sorry, I encountered an error connecting to my brain."]
    when the model call throws, the fixed text
    ["I couldn't process that request."] when it yields no text or empty
    text, and the model's text as it is otherwise. *)
Theorem chat_fallback (result : model_result) (s : state) :
  (exists s', snd (handleChat result s) = Normal s') /\
  (submits s ->
   exists s',
     snd (handleChat result s) = Normal s' /\
     messages s' = (messages s ++
       [ {| msg_role := user; text := input s |};
         {| msg_role := ai; text := reply result |} ])%list /\
     isLoading s' = false /\
     (result = Rejected ->
        reply result
        = "Sorry, I encountered an error connecting to my brain.") /\
     (result = Resolved None \/ result = Resolved (Some EmptyString) ->
        reply result = "I couldn't process that request.") /\
     (forall t, result = Resolved (Some t) -> t <> EmptyString ->
        reply result = t)).
Proof.
  split.
  - unfold handleChat.
    destruct (JS.blank (input s) || isLoading s); simpl; [eauto|].
    destruct result as [|response_text]; simpl; eauto.
  - intros Hs. rewrite (handleChat_submits result s Hs). simpl.
    eexists. split; [reflexivity|]. simpl.
    split; [reflexivity|]. split; [reflexivity|].
    split; [now intros ->|]. split.
    + now intros [->| ->].
    + intros t -> Ht. destruct t; [congruence|reflexivity].
Qed.

(** C4, as first stated, fails: no single text is the reply both when
    the model call throws and when it yields no text. *)
Lemma two_fallback_texts :
  ~ exists fallback : string,
      last_text (snd (handleChat Rejected
        {| notes := []; messages := []; input := "hi";
           isLoading := false |})) = Some fallback /\
      last_text (snd (handleChat (Resolved None)
        {| notes := []; messages := []; input := "hi";
           isLoading := false |})) = Some fallback.
Proof.
  intros (fallback & H1 & H2).
  vm_compute in H1, H2. congruence.
Qed.

Lemma chat_fallback_witness :
  exists s',
    snd (handleChat Rejected
           {| notes := []; messages := []; input := "hi";
              isLoading := false |}) = Normal s' /\
    messages s' =
      [ {| msg_role := user; text := "hi" |};
        {| msg_role := ai;
           text := "Sorry, I encountered an error connecting to my brain." |} ].
Proof.
  destruct (proj2 (chat_fallback Rejected
              {| notes := []; messages := []; input := "hi";
                 isLoading := false |}) (conj eq_refl eq_refl))
    as (s' & Hs' & Hm & _).
  exists s'. split; [exact Hs'|exact Hm].
Defined.



End ChatFacts.

(** ** More on the store *)

Module CycleFacts.
Import Server.

Lemma order_by_newest (n : Note) (rows : list Note) :
  (forall m, In m rows ->
     String.ltb (created_at m) (created_at n) = true) ->
  order_by_created_at_desc (rows ++ [n]) = n :: order_by_created_at_desc rows.
Proof.
  induction rows as [|m rows IH]; intros Hall; simpl; [reflexivity|].
  rewrite IH by (intros x Hx; apply Hall; now right).
  simpl.
  now rewrite (StrOrd.ltb_not_leb _ _ (Hall m (or_introl eq_refl))).
Qed.

Lemma filter_lengths (A : Type) (f : A -> bool) (l : list A) :
  (List.length (filter f l)
   + List.length (filter (fun a => negb (f a)) l))%nat = List.length l.
Proof.
  induction l as [|a l IH]; simpl; [reflexivity|].
  destruct (f a); simpl; lia.
Qed.

Lemma filter_none (A : Type) (f : A -> bool) (l : list A) :
  (forall x, In x l -> f x = false) -> filter f l = [].
Proof.
  induction l as [|a l IH]; simpl; intros Hall; [reflexivity|].
  rewrite (Hall a (or_introl eq_refl)). apply IH.
  intros x Hx. apply Hall. now right.
Qed.

Lemma at_most_one_with_id (rows : list Note) (z : Z) :
  NoDup (map id rows) ->
  (List.length (filter (fun n => (z =? id n)%Z) rows) <= 1)%nat.
Proof.
  induction rows as [|m rows IH]; simpl; [lia|].
  intros Hnd. inversion Hnd as [|? ? Hnotin Hnd']; subst.
  specialize (IH Hnd').
  destruct (z =? id m) eqn:E; [|exact IH].
  apply Z.eqb_eq in E. subst z. simpl.
  rewrite filter_none; [simpl; lia|].
  intros n Hn. apply Z.eqb_neq. intros Hid.
  apply Hnotin. rewrite Hid. now apply in_map.
Qed.

Section Cycle.
Context `{Platform}.

(** X2.  When a create succeeds at a time whose timestamp is above the
    [created_at] of every stored note, the next listing is the new note
    followed by the previous listing. *)
Theorem newest_listed_first (now : Clock.datetime)
    (req_body content : JS.value) (db db' : database) (r : response) :
  JS.destructure "content" req_body = Some content ->
  post_notes now req_body db = (db', r) ->
  status r = 200 ->
  (forall m, In m (notes db) ->
     String.ltb (created_at m) (Clock.current_timestamp now) = true) ->
  exists text,
    snd (get_notes db')
    = json (NotesJson ({| id := last_rowid db + 1; content := text;
                          created_at := Clock.current_timestamp now |}
                       :: select_notes db)) /\
    (forall s, content = JS.VString s -> text = s).
Proof.
  intros Hc Hp Hs Hnew.
  destruct (CreateFacts.post_notes_cases now req_body content db Hc)
    as [[T E]|[[T E]|[T (text & E & Htext)]]];
    rewrite E in Hp; injection Hp as <- <-; try discriminate Hs.
  exists text. split; [|exact Htext].
  unfold get_notes, select_notes, with_note; simpl.
  now rewrite order_by_newest.
Qed.

Lemma created_response (now : Clock.datetime) (req_body content : JS.value)
    (db db1 : database) (i : Z) :
  post_notes now req_body db = (db1, json (CreatedJson i content)) ->
  i = last_rowid db + 1 /\ exists text, db1 = with_note now text db.
Proof.
  intros Hp.
  destruct (JS.destructure "content" req_body) as [c|] eqn:Hc.
  - destruct (CreateFacts.post_notes_cases now req_body c db Hc)
      as [[T E]|[[T E]|[T (text & E & _)]]];
      rewrite E in Hp; try discriminate Hp.
    injection Hp as <- <- _. split; [reflexivity|]. now exists text.
  - unfold post_notes in Hp. rewrite Hc in Hp. discriminate Hp.
Qed.

(** X3.  Deleting the id a create has just returned gives back the rows
    and the listing of before the create; the sequence stays at that id,
    above what it was, so the id is not given out again. *)
Theorem create_then_delete (now : Clock.datetime)
    (req_body content : JS.value) (db db1 : database) (i : Z)
    (param : string) :
  post_notes now req_body db = (db1, json (CreatedJson i content)) ->
  integer_of_text param = Some i ->
  notes (fst (delete_notes param db1)) = notes db /\
  select_notes (fst (delete_notes param db1)) = select_notes db /\
  sqlite_sequence (fst (delete_notes param db1)) = i /\
  sqlite_sequence db < i.
Proof.
  intros Hp Hi. apply created_response in Hp.
  destruct Hp as [-> (text & ->)].
  assert (Hnotes : notes (fst (delete_notes param (with_note now text db)))
                   = notes db).
  { unfold delete_notes, delete_note, with_note; simpl.
    rewrite filter_app. simpl.
    unfold id_equals at 2. rewrite Hi. simpl. rewrite Z.eqb_refl. simpl.
    rewrite app_nil_r. apply DeleteFacts.filter_all.
    intros n Hn. unfold id_equals. rewrite Hi.
    apply CreateFacts.max_rowid_ge in Hn.
    apply negb_true_iff, Z.eqb_neq. unfold last_rowid. lia. }
  split; [exact Hnotes|]. split; [|split].
  - unfold select_notes. now rewrite Hnotes.
  - reflexivity.
  - unfold last_rowid. lia.
Qed.

(** X5.  In a consistent store a delete removes at most one row; when
    the parameter denotes the id of a stored note it removes that note
    and keeps every other one. *)
Theorem delete_removes_one (param : string) (db : database) :
  consistent db ->
  (List.length (notes db)
   <= List.length (notes (fst (delete_notes param db))) + 1)%nat /\
  (forall n, In n (notes db) -> integer_of_text param = Some (id n) ->
     (List.length (notes (fst (delete_notes param db))) + 1
      = List.length (notes db))%nat /\
     ~ In n (notes (fst (delete_notes param db))) /\
     forall m, In m (notes db) -> m <> n ->
               In m (notes (fst (delete_notes param db)))).
Proof.
  intros [Hnd _]. unfold delete_notes, delete_note; simpl.
  destruct (integer_of_text param) as [z|] eqn:Hz.
  - assert (E : filter (fun n => negb (id_equals param (id n))) (notes db)
                = filter (fun n => negb (z =? id n)) (notes db)).
    { apply filter_ext. intros n. unfold id_equals. now rewrite Hz. }
    rewrite E.
    pose proof (filter_lengths Note (fun n => z =? id n) (notes db)) as Hl.
    pose proof (at_most_one_with_id (notes db) z Hnd) as H1.
    split; [lia|].
    intros n Hn [= ->].
    assert (In n (filter (fun m => id n =? id m) (notes db))) as Hin.
    { apply filter_In. split; [exact Hn|apply Z.eqb_refl]. }
    destruct (filter (fun m => id n =? id m) (notes db)) as [|x l] eqn:F;
      [destruct Hin|].
    simpl in Hl, H1. split; [lia|]. split.
    + intros Hn'. apply filter_In in Hn'. destruct Hn' as [_ Hn'].
      now rewrite Z.eqb_refl in Hn'.
    + intros m Hm Hmn. apply filter_In. split; [exact Hm|].
      apply negb_true_iff, Z.eqb_neq. intros Hid.
      apply Hmn. now apply (StoreFacts.NoDup_map_inj (notes db)).
  - rewrite DeleteFacts.filter_all.
    + split; [lia|]. intros n _ [=].
    + intros n _. unfold id_equals. now rewrite Hz.
Qed.

End Cycle.

Lemma newest_listed_first_witness :
  exists text,
    snd (get_notes (with_note (Sample.at_second 9) "four" Sample.shuffled))
    = json (NotesJson ({| id := 4; content := text;
                          created_at := "2024-05-17 09:30:09" |}
                       :: select_notes Sample.shuffled)) /\
    text = "four".
Proof.
  destruct (newest_listed_first (Sample.at_second 9)
              (Sample.with_content (JS.VString "four")) (JS.VString "four")
              Sample.shuffled _ _ eq_refl eq_refl eq_refl) as (text & E & T).
  - intros m [<-|[<-|[<-|[]]]]; reflexivity.
  - exists text. split; [exact E|]. now apply T.
Defined.

Lemma create_then_delete_witness :
  notes (fst (delete_notes "4"
                (with_note (Sample.at_second 9) "four" Sample.shuffled)))
  = notes Sample.shuffled.
Proof.
  apply (create_then_delete (H := Sample.platform) (Sample.at_second 9)
           (Sample.with_content (JS.VString "four")) (JS.VString "four")
           Sample.shuffled _ 4 "4" eq_refl eq_refl).
Defined.

Lemma shuffled_consistent : consistent Sample.shuffled.
Proof. apply StoreFacts.run_consistent, StoreFacts.empty_db_consistent. Qed.

Lemma delete_removes_one_witness :
  (List.length (notes (fst (delete_notes "2" Sample.shuffled))) + 1
   = List.length (notes Sample.shuffled))%nat.
Proof.
  pose proof (delete_removes_one (H := Sample.platform) "2"
                Sample.shuffled shuffled_consistent) as [_ Hone].
  destruct (Hone {| id := 2; content := "three";
                    created_at := "2024-05-17 09:30:03" |}) as [E _].
  - right; left. vm_compute. reflexivity.
  - vm_compute. reflexivity.
  - exact E.
Defined.

End CycleFacts.

(** ** Conversations and the prompt *)

Module ConversationFacts.
Import App Conversation.

(** One turn: the messages grow by the exchange of the turn. *)
Lemma type_and_send_spec (typed : string) (result : model_result)
    (s : state) :
  isLoading s = false ->
  exists s',
    type_and_send typed result s = Normal s' /\
    messages s' = (messages s ++ exchange (typed, result))%list /\
    notes s' = notes s /\ isLoading s' = false /\
    input s' = (if JS.blank typed then typed else EmptyString).
Proof.
  intros Hl. unfold type_and_send, exchange. simpl fst. simpl snd.
  destruct (JS.blank typed) eqn:Hb.
  - unfold handleChat. simpl. rewrite Hb. simpl.
    eexists. split; [reflexivity|]. simpl.
    rewrite app_nil_r. auto.
  - rewrite (ChatFacts.handleChat_submits result (setInput typed s)
               (conj Hb Hl)). simpl.
    eexists. split; [reflexivity|]. simpl. auto.
Qed.

(** X6.  A conversation that starts with no turn pending never ends in
    an exception.  Its messages are the earlier messages followed, for
    each turn with text that is not blank, by the user's text and the
    reply to it, in the order of the turns; blank text adds nothing.  The
    notes are untouched and no turn is left pending. *)
Theorem conversation_log (turns : list (string * model_result))
    (s : state) :
  isLoading s = false ->
  exists s',
    converse turns s = Normal s' /\
    messages s' = (messages s ++ flat_map exchange turns)%list /\
    notes s' = notes s /\
    isLoading s' = false.
Proof.
  revert s. induction turns as [|[typed result] turns IH]; intros s Hl.
  - exists s. simpl. rewrite app_nil_r. auto.
  - destruct (type_and_send_spec typed result s Hl)
      as (s1 & E1 & M1 & N1 & L1 & _).
    destruct (IH s1 L1) as (s' & E & M & N & L).
    exists s'. simpl. rewrite E1. split; [exact E|].
    rewrite M, M1, N, N1, <- app_assoc. auto.
Qed.

Lemma conversation_log_witness :
  exists s',
    converse [ ("hi", Resolved (Some "hello")); ("  ", Rejected);
               ("bye", Rejected) ]
      {| notes := []; messages := []; input := EmptyString;
         isLoading := false |} = Normal s' /\
    messages s'
    = [ {| msg_role := user; text := "hi" |};
        {| msg_role := ai; text := "hello" |};
        {| msg_role := user; text := "bye" |};
        {| msg_role := ai;
           text := "Sorry, I encountered an error connecting to my brain." |} ].
Proof.
  destruct (conversation_log
              [ ("hi", Resolved (Some "hello")); ("  ", Rejected);
                ("bye", Rejected) ]
              {| notes := []; messages := []; input := EmptyString;
                 isLoading := false |} eq_refl) as (s' & E & M & _).
  exists s'. split; [exact E|exact M].
Defined.

Lemma count_lf_app (s t : string) :
  count_lf (s ++ t) = (count_lf s + count_lf t)%nat.
Proof.
  induction s as [|c s IH]; simpl; [reflexivity|].
  destruct (JS.byte c =? 10)%N; simpl; now rewrite IH.
Qed.

Lemma join_cons (sep x y : string) (items : list string) :
  JS.join sep (x :: y :: items) = x ++ sep ++ JS.join sep (y :: items).
Proof. reflexivity. Qed.

Lemma count_lf_join (items : list string) :
  count_lf (JS.join nl items)
  = (Nat.pred (List.length items) + list_sum (map count_lf items))%nat.
Proof.
  induction items as [|x items IH]; [reflexivity|].
  destruct items as [|y items].
  - simpl. lia.
  - rewrite join_cons, !count_lf_app, IH.
    change (count_lf nl) with 1%nat.
    cbn [List.length map list_sum fold_right Nat.pred]. lia.
Qed.

Lemma list_sum_zero (A : Type) (f : A -> nat) (l : list A) :
  (forall a, In a l -> f a = O) -> list_sum (map f l) = O.
Proof.
  induction l as [|a l IH]; simpl; intros Hall; [reflexivity|].
  rewrite (Hall a (or_introl eq_refl)). apply IH.
  intros x Hx. apply Hall. now right.
Qed.

(** X7.  The bulleted block of the prompt has one line feed between
    consecutive notes, and beside those only the line feeds of the notes'
    contents: it has exactly one line per note when no content holds a
    line feed. *)
Theorem bullet_block_lines (notes : list Note) :
  count_lf (JS.join nl (map bullet notes))
  = (Nat.pred (List.length notes)
     + list_sum (map (fun n => count_lf (content n)) notes))%nat /\
  (notes <> [] ->
   (forall n, In n notes -> count_lf (content n) = O) ->
   S (count_lf (JS.join nl (map bullet notes))) = List.length notes).
Proof.
  assert (E : count_lf (JS.join nl (map bullet notes))
              = (Nat.pred (List.length notes)
                 + list_sum (map (fun n => count_lf (content n)) notes))%nat).
  { rewrite count_lf_join, List.length_map, map_map. reflexivity. }
  split; [exact E|].
  intros Hne Hnone. rewrite E.
  rewrite (list_sum_zero Note (fun n => count_lf (content n)) notes Hnone).
  destruct notes; [congruence|]. simpl. lia.
Qed.

Lemma bullet_block_lines_witness :
  S (count_lf (JS.join nl (map bullet
       [ {| id := 1; content := "buy milk"; created_at := "t" |};
         {| id := 2; content := "call mum"; created_at := "t" |} ])))
  = 2%nat.
Proof.
  apply (proj2 (bullet_block_lines
    [ {| id := 1; content := "buy milk"; created_at := "t" |};
      {| id := 2; content := "call mum"; created_at := "t" |} ]));
    [discriminate|].
  intros n [<-|[<-|[]]]; reflexivity.
Defined.

End ConversationFacts.

(** ** Growth of the store *)

Module GrowthFacts.
Import Server.

Section Growth.
Context `{Platform}.

(** X15.  Over any sequence of requests the store gains no more rows
    than creates have succeeded, and the sequence never goes down. *)
Theorem store_growth (events : list event) (db : database) :
  (List.length (notes (run events db))
   <= List.length (notes db) + List.length (created_ids events db))%nat /\
  sqlite_sequence db <= sqlite_sequence (run events db).
Proof.
  revert db. induction events as [|e events IH]; intros db; simpl.
  - split; lia.
  - destruct (IH (step db e)) as [IHl IHs].
    pose proof (StoreFacts.step_sequence db e) as Hseq.
    split; [|lia]. clear IHs Hseq.
    unfold step in IHl |- *.
    destruct (StoreFacts.serve_cases (fst e) (snd e) db)
      as [[E O]|[(text & E & O)|(param & E & O)]];
      destruct (serve (fst e) (snd e) db) as [db' o];
      simpl in E, O, IHl; rewrite O; subst db'; simpl.
    + exact IHl.
    + unfold with_note in IHl at 2. simpl in IHl.
      rewrite length_app in IHl. simpl in IHl. lia.
    + pose proof (CycleFacts.filter_lengths Note
        (fun n => negb (id_equals param (id n))) (notes db)) as Hl.
      unfold delete_note in IHl at 2. cbn [notes] in IHl.
      eapply Nat.le_trans; [exact IHl|].
      apply Nat.add_le_mono_r. rewrite <- Hl. apply Nat.le_add_r.
Qed.

End Growth.

End GrowthFacts.
